(** * vue-keycloak: route guard, component and session of the Vue front end

    Shallow embedding of
      - [frontend/vue-keycloak/src/security/keycloak.ts] (the session object),
      - [frontend/vue-keycloak/src/main.ts]              (router and guard),
      - [frontend/vue-keycloak/src/App.vue]              (the component),
      - the two curl scripts that call the identity provider and the backend.

    The JavaScript runtime is modelled by explicit state passing over a
    [World]: the one shared session object, the component's data fields, the
    promise table, the log of network requests, the navigations the router
    completed and the rejections nobody handled. *)

From Stdlib Require Import ZArith List Bool String Lia.
From stdpp Require Import base option list gmap strings pretty.
Import ListNotations.

Open Scope string_scope.
Open Scope list_scope.
Open Scope nat_scope.

(** ** JavaScript values and truthiness *)

Inductive value :=
  | VUndefined
  | VNull
  | VBool (b : bool)
  | VNum (n : Z)
  | VStr (s : string).

#[global] Instance value_eq_dec : EqDecision value.
Proof. solve_decision. Defined.

(** [ToBoolean]: what [if (v)], [!v] and [Array.prototype.some] look at. *)
Definition truthy (v : value) : bool :=
  match v with
  | VUndefined | VNull => false
  | VBool b => b
  | VNum n => negb (n =? 0)%Z
  | VStr s => negb (String.eqb s "")
  end.

(** ** vue-router: route records and resolved routes *)

Record RouteRecord := {
  path : string;
  meta : gmap string value;
}.

Record Route := {
  fullPath : string;
  matched : list RouteRecord;  (* outermost parent first, the leaf last *)
}.

(** [record.meta.requiresAuth]: reading an absent property gives [undefined]. *)
Definition meta_get (record : RouteRecord) (key : string) : value :=
  default VUndefined (meta record !! key).

(** ** keycloak.ts: configuration and the session object *)

Record KeycloakConfig := {
  realm : string;
  url : string;
  clientId : string;
}.

Definition keycloakConfig : KeycloakConfig :=
  {| realm := "your-realm";
     url := "https://your-keycloak-server/auth";
     clientId := "your-vue-client-id" |}.

Inductive SessionState :=
  | Unauthenticated
  | Authenticating
  | Authenticated
  | Expired
  | Error.

#[global] Instance SessionState_eq_dec : EqDecision SessionState.
Proof. solve_decision. Defined.

Inductive ErrorKind :=
  | NetworkError
  | AuthenticationError
  | InitError
  | SessionExpiredError
  | NotAuthenticatedError.

#[global] Instance ErrorKind_eq_dec : EqDecision ErrorKind.
Proof. solve_decision. Defined.

Module Session.

(** The object [Keycloak(keycloakConfig)] returns.  [authenticated] is the
    property the guard reads; the other fields are the Session of the data
    model. *)
Record KeycloakInstance := {
  config : KeycloakConfig;
  authenticated : value;
  state : SessionState;
  accessToken : option string;
  refreshToken : option string;
  expiresAt : option Z;
  userInfo : gmap string value;
}.

(** Modelled from the spec: the constructor of the keycloak-js package, which
    the repository imports and does not contain.  The session is created
    empty and [Unauthenticated]; [authenticated] is not yet defined. *)
Definition Keycloak (cfg : KeycloakConfig) : KeycloakInstance :=
  {| config := cfg;
     authenticated := VUndefined;
     state := Unauthenticated;
     accessToken := None;
     refreshToken := None;
     expiresAt := None;
     userInfo := ∅ |}.

(** Modelled from the spec: keycloak-js keeps [authenticated] in step with
    the state, true exactly in [Authenticated]. *)
Definition set_state (s : SessionState) (k : KeycloakInstance) : KeycloakInstance :=
  {| config := config k;
     authenticated := VBool (bool_decide (s = Authenticated));
     state := s;
     accessToken := accessToken k;
     refreshToken := refreshToken k;
     expiresAt := expiresAt k;
     userInfo := userInfo k |}.

Definition set_tokens (a r : option string) (e : option Z)
    (k : KeycloakInstance) : KeycloakInstance :=
  {| config := config k;
     authenticated := authenticated k;
     state := state k;
     accessToken := a;
     refreshToken := r;
     expiresAt := e;
     userInfo := userInfo k |}.

Definition set_userInfo (m : gmap string value)
    (k : KeycloakInstance) : KeycloakInstance :=
  {| config := config k;
     authenticated := authenticated k;
     state := state k;
     accessToken := accessToken k;
     refreshToken := refreshToken k;
     expiresAt := expiresAt k;
     userInfo := m |}.

(** The transitions of the session state machine are those of keycloak-js,
    which the repository only calls; they follow the state machine of the
    specification.  A pair of state and event the state machine does not
    list leaves the session as it is. *)

(** Modelled from the spec: the transition of keycloak-js from
    [Unauthenticated], [Expired] or [Error] to [Authenticating]. *)
Definition begin_auth (k : KeycloakInstance) : KeycloakInstance :=
  match state k with
  | Unauthenticated | Expired | Error => set_state Authenticating k
  | Authenticating | Authenticated => k
  end.

(** Modelled from the spec: the transition of keycloak-js from
    [Authenticating] to [Authenticated], when the provider returned a token
    set. *)
Definition grant (a r : string) (e : Z) (k : KeycloakInstance) : KeycloakInstance :=
  match state k with
  | Authenticating => set_state Authenticated (set_tokens (Some a) (Some r) (Some e) k)
  | _ => k
  end.

(** Modelled from the spec: the transition of keycloak-js from
    [Authenticating] to [Error], when the provider refused or the network
    failed. *)
Definition fail (k : KeycloakInstance) : KeycloakInstance :=
  match state k with
  | Authenticating => set_state Error k
  | _ => k
  end.

(** Modelled from the spec: the transition of keycloak-js from
    [Authenticating] to [Unauthenticated], when no session was found at the
    provider and none was established. *)
Definition abandon (k : KeycloakInstance) : KeycloakInstance :=
  match state k with
  | Authenticating => set_state Unauthenticated k
  | _ => k
  end.

(** Modelled from the spec: the transition of keycloak-js from any state to
    [Unauthenticated], every token field cleared. *)
Definition clear (k : KeycloakInstance) : KeycloakInstance :=
  set_state Unauthenticated (set_tokens None None None k).

(** The session's state and the property the guard reads agree. *)
Definition coherent (k : KeycloakInstance) : Prop :=
  truthy (authenticated k) = true ↔ state k = Authenticated.

End Session.

(** ** The component's data (App.vue, lines 17-18) *)

Module Vue.

Record YourVueComponent := {
  authenticated : bool;
  userInfo : gmap string value;
}.

(** [authenticated: boolean = false; userInfo: any = {}] *)
Definition created : YourVueComponent :=
  {| authenticated := false; userInfo := ∅ |}.

End Vue.

(** ** Promises, network requests and the world *)

Inductive OnLoad := LoginRequired | CheckSso.

#[global] Instance OnLoad_eq_dec : EqDecision OnLoad.
Proof. solve_decision. Defined.

(** The two [then] callbacks the repository registers, both in [mounted]. *)
Inductive InitThen := MountedThen.           (* App.vue, lines 21-28 *)
Inductive UserInfoThen := LoadUserInfoThen.  (* App.vue, lines 24-26 *)

#[global] Instance InitThen_eq_dec : EqDecision InitThen.
Proof. solve_decision. Defined.

#[global] Instance UserInfoThen_eq_dec : EqDecision UserInfoThen.
Proof. solve_decision. Defined.

(** A promise is its own index in the promise table; entries are never
    removed, so an index names one promise for the whole run. *)
Inductive Promise :=
  | PendingInit (onLoad : OnLoad) (thens : list InitThen)
  | PendingLogin
  | PendingLogout
  | PendingUserInfo (thens : list UserInfoThen)
  | ResolvedInit (b : bool)
  | ResolvedUserInfo (claims : gmap string value)
  | Resolved
  | Rejected (e : ErrorKind).

#[global] Instance Promise_eq_dec : EqDecision Promise.
Proof. solve_decision. Defined.

(** What leaves the browser towards the identity provider. *)
Inductive Request :=
  | ReqInit (onLoad : OnLoad)
  | ReqAuthorize
  | ReqEndSession
  | ReqUserInfo (access_token : string).

#[global] Instance Request_eq_dec : EqDecision Request.
Proof. solve_decision. Defined.

(** What the identity provider, or the network, answers. *)
Inductive Response :=
  | RTokens (access_token refresh_token : string) (expires_at : Z)
  | RNoSession
  | RClaims (claims : gmap string value)
  | RAck
  | RFail (e : ErrorKind).

(** The methods of the session object, as the repository calls them. *)
Inductive Call :=
  | CallInit (onLoad : OnLoad)
  | CallLogin
  | CallLogout
  | CallLoadUserInfo.

#[global] Instance Call_eq_dec : EqDecision Call.
Proof. solve_decision. Defined.

Record World := {
  keycloak : Session.KeycloakInstance;  (* the object [const keycloak] names *)
  component : Vue.YourVueComponent;
  promises : list Promise;
  calls : list Call;                    (* calls made on [keycloak], in order *)
  requests : list Request;              (* exchanges with the provider *)
  completed : list Route;               (* navigations [next()] confirmed *)
  unhandled : list ErrorKind;           (* rejections that reach the shell *)
}.

Definition set_keycloak (k : Session.KeycloakInstance) (w : World) : World :=
  {| keycloak := k; component := component w; promises := promises w;
     calls := calls w; requests := requests w; completed := completed w;
     unhandled := unhandled w |}.

Definition set_component (c : Vue.YourVueComponent) (w : World) : World :=
  {| keycloak := keycloak w; component := c; promises := promises w;
     calls := calls w; requests := requests w; completed := completed w;
     unhandled := unhandled w |}.

Definition set_promises (ps : list Promise) (w : World) : World :=
  {| keycloak := keycloak w; component := component w; promises := ps;
     calls := calls w; requests := requests w; completed := completed w;
     unhandled := unhandled w |}.

Definition called (c : Call) (w : World) : World :=
  {| keycloak := keycloak w; component := component w; promises := promises w;
     calls := calls w ++ [c]; requests := requests w; completed := completed w;
     unhandled := unhandled w |}.

Definition send (r : Request) (w : World) : World :=
  {| keycloak := keycloak w; component := component w; promises := promises w;
     calls := calls w; requests := requests w ++ [r]; completed := completed w;
     unhandled := unhandled w |}.

Definition surface (e : ErrorKind) (w : World) : World :=
  {| keycloak := keycloak w; component := component w; promises := promises w;
     calls := calls w; requests := requests w; completed := completed w;
     unhandled := unhandled w ++ [e] |}.

(** [new Promise(...)]: the fresh promise is the next index of the table. *)
Definition new_promise (p : Promise) (w : World) : nat * World :=
  (length (promises w), set_promises (promises w ++ [p]) w).

(** The router's [next()]: the navigation to [to] is confirmed. *)
Definition next (to : Route) (w : World) : World :=
  {| keycloak := keycloak w; component := component w; promises := promises w;
     calls := calls w; requests := requests w; completed := completed w ++ [to];
     unhandled := unhandled w |}.

(** ** The session manager's operations *)

Module Keycloak.

(** Modelled from the spec: the bookkeeping of keycloak-js for the login
    that is in flight, when there is one: the first pending login of the
    promise table. *)
Definition in_flight (w : World) : option nat :=
  fst <$> list_find (λ p, p = PendingLogin) (promises w).





(** Modelled from the spec: [init(options)] of keycloak-js, absent from
    the repository.  It asks the provider for a session, entering
    [Authenticating] from [Unauthenticated], and returns a promise of
    whether the session ended up [Authenticated]. *)
Definition init (onLoad : OnLoad) (w : World) : nat * World :=
  let w := called (CallInit onLoad) w in
  new_promise (PendingInit onLoad [])
    (send (ReqInit onLoad) (set_keycloak (Session.begin_auth (keycloak w)) w)).

(** Modelled from the spec: [login()] of keycloak-js, absent from the
    repository.  A call made while a login is pending attaches to the
    promise in flight; otherwise one exchange with the provider starts. *)
Definition login (w : World) : nat * World :=
  let w := called CallLogin w in
  match in_flight w with
  | Some p => (p, w)
  | None =>
      new_promise PendingLogin
        (send ReqAuthorize (set_keycloak (Session.begin_auth (keycloak w)) w))
  end.

(** Modelled from the spec: [logout()] of keycloak-js, absent from the
    repository.  The session is cleared at once; the provider's end-session
    endpoint is notified, and what it answers is ignored. *)
Definition logout (w : World) : nat * World :=
  let w := called CallLogout w in
  new_promise PendingLogout
    (send ReqEndSession (set_keycloak (Session.clear (keycloak w)) w)).

(** Modelled from the spec: [loadUserInfo()] of keycloak-js, absent from
    the repository.  With a session that is [Authenticated] it asks the
    userinfo endpoint with the current access token; otherwise it fails
    with [NotAuthenticatedError]. *)
Definition loadUserInfo (w : World) : nat * World :=
  let w := called CallLoadUserInfo w in
  match Session.state (keycloak w), Session.accessToken (keycloak w) with
  | Authenticated, Some token =>
      new_promise (PendingUserInfo []) (send (ReqUserInfo token) w)
  | _, _ =>
      new_promise (Rejected NotAuthenticatedError) (surface NotAuthenticatedError w)
  end.

End Keycloak.

(** ** App.vue: the component's methods *)

Module App.

(** App.vue, lines 24-26: [(userInfo) => { this.userInfo = userInfo; }] *)
Definition loadUserInfo_then (userInfo : gmap string value) (w : World) : World :=
  set_component
    {| Vue.authenticated := Vue.authenticated (component w);
       Vue.userInfo := userInfo |} w.

(** [promise.then(callback)] on a promise of [loadUserInfo()]. *)
Definition then_userInfo (p : nat) (cb : UserInfoThen) (w : World) : World :=
  match promises w !! p with
  | Some (PendingUserInfo thens) =>
      set_promises (<[p := PendingUserInfo (thens ++ [cb])]> (promises w)) w
  | Some (ResolvedUserInfo claims) => loadUserInfo_then claims w
  | _ => w
  end.

(** App.vue, lines 21-28: the callback of [init(...).then]. *)
Definition init_then (authenticated : bool) (w : World) : World :=
  let w :=
    set_component
      {| Vue.authenticated := authenticated;
         Vue.userInfo := Vue.userInfo (component w) |} w in
  if authenticated then
    let '(p, w) := Keycloak.loadUserInfo w in
    then_userInfo p LoadUserInfoThen w
  else w.

(** [promise.then(callback)] on a promise of [init()]. *)
Definition then_init (p : nat) (cb : InitThen) (w : World) : World :=
  match promises w !! p with
  | Some (PendingInit onLoad thens) =>
      set_promises (<[p := PendingInit onLoad (thens ++ [cb])]> (promises w)) w
  | Some (ResolvedInit b) => init_then b w
  | _ => w
  end.

(** App.vue, lines 20-29 *)
Definition mounted (w : World) : World :=
  let '(p, w) := Keycloak.init LoginRequired w in
  then_init p MountedThen w.

(** App.vue, lines 31-33: the promise [login()] returns is dropped. *)
Definition login (w : World) : World :=
  snd (Keycloak.login w).

(** App.vue, lines 35-37: the promise [logout()] returns is dropped. *)
Definition logout (w : World) : World :=
  snd (Keycloak.logout w).

End App.

(** ** main.ts: the routes and the guard *)

Module Main.

(** main.ts, lines 11-18; the [component] of a record plays no part in
    the guard and is left out. *)
Definition routes : list RouteRecord :=
  [ {| path := "/"; meta := {[ "requiresAuth" := VBool true ]} |} ].

(** [to.matched.some((record) => record.meta.requiresAuth)] *)
Definition requiresAuth (to : Route) : bool :=
  existsb (λ record, truthy (meta_get record "requiresAuth")) (matched to).

(** main.ts, lines 24-34 *)
Definition beforeEach (to from : Route) (w : World) : World :=
  if requiresAuth to then
    if negb (truthy (Session.authenticated (keycloak w))) then
      snd (Keycloak.login w)
    else
      next to w
  else
    next to w.

End Main.

(** ** The event loop: settling promises, and the actions of a run *)

Definition run_init_then (b : bool) (w : World) (cb : InitThen) : World :=
  match cb with MountedThen => App.init_then b w end.

Definition run_userInfo_then (claims : gmap string value) (w : World)
    (cb : UserInfoThen) : World :=
  match cb with LoadUserInfoThen => App.loadUserInfo_then claims w end.

Definition resolve (p : nat) (v : Promise) (w : World) : World :=
  set_promises (<[p := v]> (promises w)) w.

(** A rejection: the repository registers no rejection handler anywhere, so
    every rejection reaches the shell. *)
Definition reject (p : nat) (e : ErrorKind) (w : World) : World :=
  surface e (set_promises (<[p := Rejected e]> (promises w)) w).

(** Modelled from the spec: how keycloak-js settles its promises when the
    provider answers; the repository does not contain it.  The callbacks run
    are those of App.vue. *)
Definition settle (p : nat) (r : Response) (w : World) : World :=
  match promises w !! p with
  | Some (PendingInit _ thens) =>
      match r with
      | RTokens a rt e =>
          let k := Session.grant a rt e (keycloak w) in
          let b := bool_decide (Session.state k = Authenticated) in
          foldl (run_init_then b) (resolve p (ResolvedInit b) (set_keycloak k w)) thens
      | RNoSession =>
          let k := Session.abandon (keycloak w) in
          let b := bool_decide (Session.state k = Authenticated) in
          foldl (run_init_then b) (resolve p (ResolvedInit b) (set_keycloak k w)) thens
      | _ => reject p InitError (set_keycloak (Session.fail (keycloak w)) w)
      end
  | Some PendingLogin =>
      match r with
      | RTokens a rt e =>
          resolve p Resolved (set_keycloak (Session.grant a rt e (keycloak w)) w)
      | RFail AuthenticationError =>
          reject p AuthenticationError (set_keycloak (Session.fail (keycloak w)) w)
      | _ => reject p NetworkError (set_keycloak (Session.fail (keycloak w)) w)
      end
  | Some PendingLogout => resolve p Resolved w
  | Some (PendingUserInfo thens) =>
      match r with
      | RClaims claims =>
          foldl (run_userInfo_then claims)
            (resolve p (ResolvedUserInfo claims)
               (set_keycloak (Session.set_userInfo claims (keycloak w)) w))
            thens
      | _ => reject p NetworkError w
      end
  | _ => w
  end.

Inductive Action :=
  | Navigate (to from : Route)   (* the router consults the guard *)
  | Mount                        (* Vue mounts the component *)
  | ClickLogin
  | ClickLogout
  | Settle (p : nat) (r : Response).

Definition step (w : World) (a : Action) : World :=
  match a with
  | Navigate to from => Main.beforeEach to from w
  | Mount => App.mounted w
  | ClickLogin => App.login w
  | ClickLogout => App.logout w
  | Settle p r => settle p r w
  end.

Definition run (acts : list Action) (w : World) : World :=
  foldl step w acts.

Definition is_navigation (a : Action) : bool :=
  match a with Navigate _ _ => true | _ => false end.



(** The application right after start: the session object keycloak.ts
    created, the component as constructed, nothing else yet. *)
Definition initial : World :=
  {| keycloak := Session.Keycloak keycloakConfig;
     component := Vue.created;
     promises := [];
     calls := [];
     requests := [];
     completed := [];
     unhandled := [] |}.

(** ** Module loading: who holds which session object *)

Module Loader.

(** The module registry of the runtime: a module body is evaluated the
    first time its specifier is imported, and its default export is kept. *)
Record Modules := {
  evaluated : gmap string nat;             (* specifier to exported object *)
  heap : list Session.KeycloakInstance;    (* objects, by address *)
}.

Definition empty : Modules := {| evaluated := ∅; heap := [] |}.

(** keycloak.ts, lines 10-12: one call of the constructor, its result
    exported. *)
Definition keycloak_ts (st : Modules) : nat * Modules :=
  (length (heap st),
   {| evaluated := evaluated st;
      heap := heap st ++ [Session.Keycloak keycloakConfig] |}).

(** [import keycloak from '@/path-to-keycloak.ts'] *)
Definition import_keycloak (st : Modules) : nat * Modules :=
  match evaluated st !! "@/path-to-keycloak.ts" with
  | Some a => (a, st)
  | None =>
      let '(a, st) := keycloak_ts st in
      (a, {| evaluated := <["@/path-to-keycloak.ts" := a]> (evaluated st);
             heap := heap st |})
  end.

(** App.vue, line 13: the binding the component's methods use. *)
Definition App_vue (st : Modules) : nat * Modules :=
  import_keycloak st.

(** main.ts, lines 3 and 5: App.vue is imported first, then the session;
    the result is the guard's binding and the component's. *)
Definition main_ts (st : Modules) : (nat * nat) * Modules :=
  let '(c, st) := App_vue st in
  let '(g, st) := import_keycloak st in
  ((g, c), st).

End Loader.

(** ** The curl scripts *)

Module Scripts.

Record Curl := {
  method : string;
  headers : list (string * string);
  data : list (string * string);
  target : string;
}.

Definition token_endpoint : string :=
  "http://keycloak.apps-crc.testing/realms/CommonServices/protocol/openid-connect/token".

Definition backend : string := "http://127.0.0.1:8000".

(** First script, lines 4-12: the token request of the public client. *)
Definition part_000_token : Curl :=
  {| method := "POST";
     headers := [("Content-Type", "application/x-www-form-urlencoded");
                 ("Accept", "application/json")];
     data := [("client_id", "test-app-frontend"); ("grant_type", "password");
              ("username", "okaiyong"); ("password", "1")];
     target := token_endpoint |}.

(** First script, lines 17-19: the call of the backend. *)
Definition part_000_backend (TOKEN_FRONTEND : string) : Curl :=
  {| method := "GET";
     headers := [("Authorization", ("Bearer " ++ TOKEN_FRONTEND)%string)];
     data := [];
     target := backend |}.

(** The first script: [provider] is what [jq -r '.access_token'] prints
    for the answer to a token request. *)
Definition part_000 (provider : Curl → string) : list Curl :=
  let TOKEN_FRONTEND := provider part_000_token in
  [part_000_token; part_000_backend TOKEN_FRONTEND].

(** Second script, lines 4-12 *)
Definition part_001_test : Curl :=
  {| method := "POST";
     headers := [("Content-Type", "application/x-www-form-urlencoded")];
     data := [("client_id", "appstore"); ("grant_type", "password");
              ("client_secret", "K5egGlT3AlaQxy3VsG1Q4TB9sHYvX7ME");
              ("scope", "openid"); ("username", "okaiyong"); ("password", "1")];
     target := token_endpoint |}.

(** Second script, lines 18-28 *)
Definition part_001_token : Curl :=
  {| method := "POST";
     headers := [("Content-Type", "application/x-www-form-urlencoded");
                 ("Accept", "application/json")];
     data := [("client_id", "appstore"); ("grant_type", "password");
              ("client_secret", "K5egGlT3AlaQxy3VsG1Q4TB9sHYvX7ME");
              ("scope", "openid"); ("username", "okaiyong"); ("password", "1")];
     target := token_endpoint |}.

(** Second script, lines 31-34 *)
Definition part_001_backend (TOKEN : string) : Curl :=
  {| method := "GET";
     headers := [("Accept", "application/json");
                 ("Authorization", ("Bearer " ++ TOKEN)%string)];
     data := [];
     target := backend |}.

Definition part_001 (provider : Curl → string) : list Curl :=
  let TOKEN := provider part_001_token in
  [part_001_test; part_001_token; part_001_backend TOKEN].

(** The requests of a script that go to the protected backend. *)
Definition to_backend (script : list Curl) : list Curl :=
  filter (λ c, target c = backend) script.

(** What goes over the wire: the headers given with [-H], and curl's own
    [Accept: */*] when none of them is an [Accept] header. *)
Definition wire_headers (c : Curl) : list (string * string) :=
  if existsb (λ h, String.eqb (fst h) "Accept") (headers c)
  then headers c
  else headers c ++ [("Accept", "*/*")].

Definition carries (h : string * string) (c : Curl) : Prop :=
  In h (wire_headers c).

End Scripts.

(** ** Concrete routes and answers used in the examples *)

Module Sample.

(** The route ['/'] of main.ts, resolved: one matched record. *)
Definition home : Route := {| fullPath := "/"; matched := Main.routes |}.

(** vue-router's start location: nothing matched. *)
Definition START : Route := {| fullPath := "/"; matched := [] |}.

(** A child without a flag of its own, under a protected parent. *)
Definition parent : RouteRecord :=
  {| path := "/account"; meta := {[ "requiresAuth" := VBool true ]} |}.

Definition child : RouteRecord :=
  {| path := "/account/profile"; meta := ∅ |}.

Definition profile : Route :=
  {| fullPath := "/account/profile"; matched := [parent; child] |}.

(** A public route. *)
Definition about : Route :=
  {| fullPath := "/about"; matched := [ {| path := "/about"; meta := ∅ |} ] |}.

Definition tokens : Response := RTokens "T1" "R1" 60.

Definition alice : gmap string value := {[ "username" := VStr "alice" ]}.

End Sample.

(** ** App.vue: the template and what the user can press *)

Module Template.

(** The two [@click] bindings of the template. *)
Inductive Handler := OnLogin | OnLogout.

#[global] Instance Handler_eq_dec : EqDecision Handler.
Proof. solve_decision. Defined.

(** The elements the template can put inside its [div]. *)
Inductive Node :=
  | P (text : string)
  | Button (click : Handler) (label : string).

#[global] Instance Node_eq_dec : EqDecision Node.
Proof. solve_decision. Defined.

(** Vue's text interpolation [{{ v }}]: [null] and [undefined] give the
    empty string, everything else is converted as [String(v)] does; an
    integer is printed in decimal, which is what [String] gives below
    [1e21]. *)
Definition toDisplayString (v : value) : string :=
  match v with
  | VUndefined | VNull => ""
  | VBool true => "true"
  | VBool false => "false"
  | VNum n => pretty n
  | VStr s => s
  end.

(** [userInfo.username]: an absent property reads as [undefined]. *)
Definition username (c : Vue.YourVueComponent) : value :=
  default VUndefined (Vue.userInfo c !! "username").

(** App.vue, lines 3-7: the children of the [div], in document order. *)
Definition render (c : Vue.YourVueComponent) : list Node :=
  (if Vue.authenticated c
   then [P ("Authenticated as " ++ toDisplayString (username c))%string]
   else [])
  ++ (if negb (Vue.authenticated c) then [Button OnLogin "Login"] else [])
  ++ (if Vue.authenticated c then [Button OnLogout "Logout"] else []).

(** Whether a button bound to [h] is on the page. *)
Definition shows (h : Handler) (c : Vue.YourVueComponent) : bool :=
  existsb
    (λ n, match n with
          | Button h' _ => bool_decide (h' = h)
          | P _ => false
          end)
    (render c).

(** A click calls the method the button's [@click] names; a button that is
    not on the page cannot be clicked. *)
Definition press (h : Handler) (w : World) : World :=
  if shows h (component w) then
    match h with
    | OnLogin => App.login w
    | OnLogout => App.logout w
    end
  else w.

End Template.

(** What happens to the page: the user presses a button or navigates, Vue
    mounts the component, the provider answers. *)
Inductive Event :=
  | Press (h : Template.Handler)
  | Goes (to from : Route)
  | Mounts
  | Answers (p : nat) (r : Response).

Definition handle (w : World) (e : Event) : World :=
  match e with
  | Press h => Template.press h w
  | Goes to from => Main.beforeEach to from w
  | Mounts => App.mounted w
  | Answers p r => settle p r w
  end.

Definition session (evs : list Event) (w : World) : World :=
  foldl handle w evs.

Definition is_answer (e : Event) : bool :=
  match e with Answers _ _ => true | _ => false end.

(** The targets of the navigations of a run, in order. *)
Definition targets (acts : list Action) : list Route :=
  omap (λ a, match a with Navigate to _ => Some to | _ => None end) acts.

(** * Properties *)

(** ** Frame lemmas: what each operation leaves alone *)

Lemma foldl_frame {A B} (g : World → B) (f : World → A → World) l :
  (∀ w a, g (f w a) = g w) → ∀ w, g (foldl f w l) = g w.
Proof.
  intros Hf. induction l as [|a l IH]; intros w; simpl; [done|].
  by rewrite IH, Hf.
Qed.

Lemma login_completed w : completed (snd (Keycloak.login w)) = completed w.
Proof. unfold Keycloak.login. by destruct (Keycloak.in_flight _). Qed.

Lemma loadUserInfo_completed w :
  completed (snd (Keycloak.loadUserInfo w)) = completed w.
Proof.
  unfold Keycloak.loadUserInfo; cbn.
  by destruct (Session.state (keycloak w)), (Session.accessToken (keycloak w)).
Qed.

Lemma then_userInfo_completed p cb w :
  completed (App.then_userInfo p cb w) = completed w.
Proof.
  unfold App.then_userInfo.
  by destruct (promises w !! p) as [[]|].
Qed.

Lemma init_then_completed b w : completed (App.init_then b w) = completed w.
Proof.
  unfold App.init_then. destruct b; [|done].
  destruct (Keycloak.loadUserInfo _) as [p w'] eqn:E.
  rewrite then_userInfo_completed.
  change w' with (snd (p, w')). rewrite <- E. by rewrite loadUserInfo_completed.
Qed.

Lemma mounted_completed w : completed (App.mounted w) = completed w.
Proof.
  unfold App.mounted, Keycloak.init, new_promise, App.then_init; cbn.
  by destruct (_ !! _) as [[]|]; cbn; rewrite ?init_then_completed.
Qed.

Lemma settle_completed p r w : completed (settle p r w) = completed w.
Proof.
  unfold settle.
  destruct (promises w !! p) as [[ol thens| | |thens| | | |]|]; try done.
  - destruct r; try done;
      (rewrite (foldl_frame completed); [done|]);
      intros w' []; apply init_then_completed.
  - by destruct r as [| | | |[]].
  - destruct r; try done.
    rewrite (foldl_frame completed); [done|]. by intros w' [].
Qed.

(** No action but a navigation ever confirms a navigation. *)
Lemma step_completed w a :
  is_navigation a = false → completed (step w a) = completed w.
Proof.
  destruct a; simpl; try done; intros _.
  - apply mounted_completed.
  - apply login_completed.
  - apply settle_completed.
Qed.

Lemma run_completed acts w :
  forallb (λ a, negb (is_navigation a)) acts = true →
  completed (run acts w) = completed w.
Proof.
  unfold run. revert w.
  induction acts as [|a acts IH]; intros w H; simpl in *; [done|].
  apply andb_prop in H as [Ha Hacts].
  rewrite IH by done.
  apply step_completed. by destruct (is_navigation a).
Qed.

Lemma requiresAuth_spec (to : Route) :
  Main.requiresAuth to = true ↔
  ∃ record, In record (matched to) ∧ truthy (meta_get record "requiresAuth") = true.
Proof. unfold Main.requiresAuth. apply existsb_exists. Qed.

Lemma login_calls w : calls (snd (Keycloak.login w)) = calls w ++ [CallLogin].
Proof. unfold Keycloak.login. by destruct (Keycloak.in_flight _). Qed.

(** ** The route guard *)

Lemma lookup_snoc {A} (l : list A) (x : A) : (l ++ [x]) !! length l = Some x.
Proof. by apply list_lookup_middle. Qed.

Lemma lookup_insert_snoc {A} (l : list A) (x y : A) :
  <[length l := y]> (l ++ [x]) !! length l = Some y.
Proof. apply list_lookup_insert_eq. rewrite length_app. simpl. lia. Qed.

Lemma in_flight_pending w p :
  Keycloak.in_flight w = Some p → promises w !! p = Some PendingLogin.
Proof.
  unfold Keycloak.in_flight. intros H.
  destruct (list_find _ _) as [[i x]|] eqn:E; simplify_eq/=.
  apply list_find_Some in E as (Hl & -> & _). done.
Qed.

Lemma in_flight_called c w : Keycloak.in_flight (called c w) = Keycloak.in_flight w.
Proof. done. Qed.

(** The promise [login()] returns is a pending login. *)
Lemma login_pending w :
  promises (snd (Keycloak.login w)) !! fst (Keycloak.login w) = Some PendingLogin.
Proof.
  unfold Keycloak.login. rewrite in_flight_called.
  destruct (Keycloak.in_flight w) as [p|] eqn:E; cbn.
  - by apply in_flight_pending.
  - apply lookup_snoc.
Qed.

(** C9: the guard looks at every record of the matched chain, so one record
    with a truthy [meta.requiresAuth] anywhere in the chain (a parent, say)
    makes the navigation require authentication: without a session the guard
    calls [login()] and not [next()], with one it calls [next()]. *)
Theorem guard_gates_whole_chain (to from : Route) (record : RouteRecord) (w : World) :
  In record (matched to) →
  truthy (meta_get record "requiresAuth") = true →
  Main.requiresAuth to = true ∧
  (truthy (Session.authenticated (keycloak w)) = false →
     completed (Main.beforeEach to from w) = completed w ∧
     calls (Main.beforeEach to from w) = calls w ++ [CallLogin]) ∧
  (truthy (Session.authenticated (keycloak w)) = true →
     completed (Main.beforeEach to from w) = completed w ++ [to] ∧
     calls (Main.beforeEach to from w) = calls w).
Proof.
  intros Hin Hflag.
  assert (Hreq : Main.requiresAuth to = true) by (apply requiresAuth_spec; eauto).
  split; [done|]. unfold Main.beforeEach. rewrite Hreq.
  split; intros ->; simpl.
  - by rewrite login_completed, login_calls.
  - done.
Qed.

Lemma guard_gates_whole_chain_witness :
  meta_get Sample.child "requiresAuth" = VUndefined ∧
  Main.requiresAuth Sample.profile = true ∧
  completed (Main.beforeEach Sample.profile Sample.START initial) = [] ∧
  calls (Main.beforeEach Sample.profile Sample.START initial) = [CallLogin].
Proof.
  destruct (guard_gates_whole_chain Sample.profile Sample.START Sample.parent initial)
    as (Hreq & Hno & _).
  - left; reflexivity.
  - reflexivity.
  - destruct Hno as [Hc Hl]; [reflexivity|].
    split; [reflexivity|]. split; [exact Hreq|]. split; [exact Hc | exact Hl].
Defined.

(** C2, as the code has it: for a navigation that requires authentication
    while [keycloak.authenticated] is falsy the guard calls [login()] once and
    does not call [next()]; the promise is dropped, so whatever happens next
    short of a new navigation (the login resolving to [Authenticated], the
    login failing) leaves that navigation unconfirmed; a failed login reaches
    the shell as an unhandled rejection; a navigation made once
    [keycloak.authenticated] is truthy is confirmed. *)
Theorem guard_login_never_resumes (to from : Route) (w : World) :
  Main.requiresAuth to = true →
  truthy (Session.authenticated (keycloak w)) = false →
  let w1 := Main.beforeEach to from w in
  let p := fst (Keycloak.login w) in
  calls w1 = calls w ++ [CallLogin] ∧
  promises w1 !! p = Some PendingLogin ∧
  completed w1 = completed w ∧
  (∀ acts, forallb (λ a, negb (is_navigation a)) acts = true →
     completed (run acts w1) = completed w) ∧
  (∀ e, ∃ e', unhandled (settle p (RFail e) w1) = unhandled w1 ++ [e'] ∧
              completed (settle p (RFail e) w1) = completed w) ∧
  (∀ w', truthy (Session.authenticated (keycloak w')) = true →
     completed (Main.beforeEach to from w') = completed w' ++ [to]).
Proof.
  intros Hreq Hauth w1 p.
  assert (Hw1 : w1 = snd (Keycloak.login w)).
  { unfold w1, Main.beforeEach. by rewrite Hreq, Hauth. }
  assert (Hp : promises w1 !! p = Some PendingLogin).
  { rewrite Hw1. apply login_pending. }
  repeat split.
  - rewrite Hw1. apply login_calls.
  - done.
  - rewrite Hw1. apply login_completed.
  - intros acts Hacts. rewrite run_completed by done.
    rewrite Hw1. apply login_completed.
  - intros e. unfold settle. rewrite Hp.
    destruct e; eexists; (split; [reflexivity|]); cbn;
      rewrite Hw1; apply login_completed.
  - intros w' Hw'. unfold Main.beforeEach. by rewrite Hreq, Hw'.
Qed.

Lemma guard_login_never_resumes_witness :
  completed
    (run [Settle 0 Sample.tokens; ClickLogin; Mount]
       (Main.beforeEach Sample.home Sample.START initial)) = [].
Proof.
  destruct (guard_login_never_resumes Sample.home Sample.START initial)
    as (_ & _ & _ & Hrun & _); [reflexivity | reflexivity |].
  exact (Hrun [Settle 0 Sample.tokens; ClickLogin; Mount] eq_refl).
Defined.

(** C2, as the claim has it, fails: the login the guard started resolves to
    [Authenticated], and the navigation is still not confirmed. *)
Lemma guard_login_resolved_counterexample :
  let w1 := Main.beforeEach Sample.home Sample.START initial in
  let w2 := settle 0 Sample.tokens w1 in
  Main.requiresAuth Sample.home = true ∧
  truthy (Session.authenticated (keycloak initial)) = false ∧
  calls w1 = [CallLogin] ∧
  promises w1 !! 0 = Some PendingLogin ∧
  promises w2 !! 0 = Some Resolved ∧
  Session.state (keycloak w2) = Authenticated ∧
  ¬ In Sample.home (completed w2).
Proof.
  repeat split; try reflexivity. intros [].
Qed.

(** ** Closed forms of the component's methods and callbacks *)

Lemma insert_snoc {A} (l : list A) (x y : A) :
  <[length l := y]> (l ++ [x]) = l ++ [y].
Proof.
  rewrite insert_app_r_alt by lia. by replace (length l - length l) with 0 by lia.
Qed.

Lemma mounted_eq w :
  App.mounted w =
  {| keycloak := Session.begin_auth (keycloak w);
     component := component w;
     promises := promises w ++ [PendingInit LoginRequired [MountedThen]];
     calls := calls w ++ [CallInit LoginRequired];
     requests := requests w ++ [ReqInit LoginRequired];
     completed := completed w;
     unhandled := unhandled w |}.
Proof.
  unfold App.mounted, Keycloak.init, new_promise, App.then_init; cbn.
  rewrite lookup_snoc. unfold set_promises; cbn. by rewrite insert_snoc.
Qed.

Lemma init_then_false w :
  App.init_then false w =
  set_component
    {| Vue.authenticated := false; Vue.userInfo := Vue.userInfo (component w) |} w.
Proof. done. Qed.

Lemma init_then_true_token w token :
  Session.state (keycloak w) = Authenticated →
  Session.accessToken (keycloak w) = Some token →
  App.init_then true w =
  {| keycloak := keycloak w;
     component :=
       {| Vue.authenticated := true; Vue.userInfo := Vue.userInfo (component w) |};
     promises := promises w ++ [PendingUserInfo [LoadUserInfoThen]];
     calls := calls w ++ [CallLoadUserInfo];
     requests := requests w ++ [ReqUserInfo token];
     completed := completed w;
     unhandled := unhandled w |}.
Proof.
  intros Hs Ht.
  unfold App.init_then, Keycloak.loadUserInfo, new_promise, App.then_userInfo; cbn.
  rewrite Hs, Ht; cbn.
  rewrite lookup_snoc. unfold set_promises; cbn. by rewrite insert_snoc.
Qed.

Lemma init_then_true_refused w :
  (Session.state (keycloak w) ≠ Authenticated ∨
   Session.accessToken (keycloak w) = None) →
  App.init_then true w =
  {| keycloak := keycloak w;
     component :=
       {| Vue.authenticated := true; Vue.userInfo := Vue.userInfo (component w) |};
     promises := promises w ++ [Rejected NotAuthenticatedError];
     calls := calls w ++ [CallLoadUserInfo];
     requests := requests w;
     completed := completed w;
     unhandled := unhandled w ++ [NotAuthenticatedError] |}.
Proof.
  intros H.
  unfold App.init_then, Keycloak.loadUserInfo, new_promise, App.then_userInfo; cbn.
  destruct (Session.state (keycloak w)) eqn:Hs,
           (Session.accessToken (keycloak w)) eqn:Ht;
    try (destruct H; congruence); cbn; by rewrite lookup_snoc.
Qed.

(** The callback of [init] only ever appends to the promise table. *)
Lemma init_then_promises b w :
  ∃ extra, promises (App.init_then b w) = promises w ++ extra.
Proof.
  destruct b.
  - destruct (decide (Session.state (keycloak w) = Authenticated)) as [Hs|Hs].
    + destruct (Session.accessToken (keycloak w)) as [token|] eqn:Ht.
      * rewrite (init_then_true_token w token) by done. by eexists.
      * rewrite init_then_true_refused by auto. by eexists.
    + rewrite init_then_true_refused by auto. by eexists.
  - exists []. by rewrite app_nil_r.
Qed.

Lemma foldl_init_then_promises b thens w :
  ∃ extra, promises (foldl (run_init_then b) w thens) = promises w ++ extra.
Proof.
  revert w. induction thens as [|[] thens IH]; intros w; simpl.
  - exists []. by rewrite app_nil_r.
  - destruct (IH (App.init_then b w)) as [e1 ->].
    destruct (init_then_promises b w) as [e2 ->].
    exists (e2 ++ e1). by rewrite app_assoc.
Qed.

Lemma foldl_userInfo_then_promises claims thens w :
  promises (foldl (run_userInfo_then claims) w thens) = promises w.
Proof. apply (foldl_frame promises). by intros w' []. Qed.

Lemma login_promises w :
  ∃ extra, promises (snd (Keycloak.login w)) = promises w ++ extra.
Proof.
  unfold Keycloak.login. rewrite in_flight_called.
  destruct (Keycloak.in_flight w); cbn.
  - exists []. by rewrite app_nil_r.
  - by eexists.
Qed.

(** Settling [p] rewrites the entry of [p] and appends; nothing else. *)
Lemma settle_promises p r w :
  ∃ ps extra, promises (settle p r w) = ps ++ extra ∧
              length ps = length (promises w) ∧
              ∀ q, q ≠ p → ps !! q = promises w !! q.
Proof.
  assert (Hid : ∃ ps extra, promises w = ps ++ extra ∧
              length ps = length (promises w) ∧
              ∀ q, q ≠ p → ps !! q = promises w !! q).
  { exists (promises w), []. by rewrite app_nil_r. }
  assert (Hins : ∀ v extra, ∃ ps extra',
              <[p := v]> (promises w) ++ extra = ps ++ extra' ∧
              length ps = length (promises w) ∧
              ∀ q, q ≠ p → ps !! q = promises w !! q).
  { intros v extra. exists (<[p := v]> (promises w)), extra.
    rewrite length_insert. split_and!; [done..|].
    intros q Hq. by rewrite list_lookup_insert_ne. }
  unfold settle.
  destruct (promises w !! p) as [[ol thens| | |thens| | | |]|]; try done.
  - destruct r as [a rt e| | | |e];
      try (specialize (Hins (Rejected InitError) []);
           rewrite app_nil_r in Hins; exact Hins);
      match goal with
      | |- context [foldl (run_init_then ?b) ?w0 thens] =>
          destruct (foldl_init_then_promises b thens w0) as [extra ->]
      end; apply Hins.
  - destruct r as [| | | |[]]; cbn;
      match goal with
      | |- context [<[p := ?v]> (promises w)] =>
          specialize (Hins v []); rewrite app_nil_r in Hins; exact Hins
      end.
  - cbn. specialize (Hins Resolved []). by rewrite app_nil_r in Hins.
  - destruct r;
      try (specialize (Hins (Rejected NetworkError) []);
           rewrite app_nil_r in Hins; exact Hins).
    rewrite foldl_userInfo_then_promises. cbn.
    specialize (Hins (ResolvedUserInfo claims) []). by rewrite app_nil_r in Hins.
Qed.

(** A promise changes only when it is settled. *)
Lemma step_entry w a p x :
  promises w !! p = Some x →
  (∀ r, a ≠ Settle p r) →
  promises (step w a) !! p = Some x.
Proof.
  intros Hp Ha.
  assert (Happ : ∀ extra, (promises w ++ extra) !! p = Some x).
  { intros extra. by apply lookup_app_l_Some. }
  destruct a as [to from| | | |q r]; simpl.
  - unfold Main.beforeEach.
    destruct (Main.requiresAuth to); [|done].
    destruct (negb _); [|done].
    destruct (login_promises w) as [extra ->]. apply Happ.
  - rewrite mounted_eq. apply Happ.
  - unfold App.login. destruct (login_promises w) as [extra ->]. apply Happ.
  - apply Happ.
  - destruct (settle_promises q r w) as (ps & extra & -> & Hlen & Hps).
    apply lookup_app_l_Some. rewrite Hps; [done|].
    intros ->. by apply (Ha r).
Qed.

Lemma run_entry acts w p x :
  promises w !! p = Some x →
  (∀ r, ¬ In (Settle p r) acts) →
  promises (run acts w) !! p = Some x.
Proof.
  unfold run. revert w.
  induction acts as [|a acts IH]; intros w Hp Hacts; simpl; [done|].
  apply IH.
  - apply step_entry; [done|]. intros r ->. apply (Hacts r). by left.
  - intros r Hin. apply (Hacts r). by right.
Qed.

(** ** Logout *)

(** C3: whatever the session was and whatever the network answers to the
    end-session notification, after [logout()] the session is
    [Unauthenticated] with every token field cleared, and nothing fails for
    the caller: the method returns, its promise resolves, and no rejection
    reaches the shell. *)
Theorem logout_always_unauthenticated (w : World) (r : Response) :
  let p := fst (Keycloak.logout w) in
  let w1 := App.logout w in
  let w2 := settle p r w1 in
  (Session.state (keycloak w1) = Unauthenticated ∧
   truthy (Session.authenticated (keycloak w1)) = false ∧
   Session.accessToken (keycloak w1) = None ∧
   Session.refreshToken (keycloak w1) = None ∧
   Session.expiresAt (keycloak w1) = None) ∧
  (calls w1 = calls w ++ [CallLogout] ∧
   requests w1 = requests w ++ [ReqEndSession] ∧
   unhandled w1 = unhandled w) ∧
  (promises w2 !! p = Some Resolved ∧
   Session.state (keycloak w2) = Unauthenticated ∧
   Session.accessToken (keycloak w2) = None ∧
   unhandled w2 = unhandled w).
Proof.
  cbn zeta. split; [done|]. split; [done|].
  unfold settle, App.logout, Keycloak.logout, new_promise; cbn.
  rewrite lookup_snoc. unfold resolve; cbn.
  by rewrite lookup_insert_snoc.
Qed.

(** ** The component's own fields *)

Lemma login_component w : component (snd (Keycloak.login w)) = component w.
Proof. unfold Keycloak.login. by destruct (Keycloak.in_flight _). Qed.

Lemma beforeEach_component to from w :
  component (Main.beforeEach to from w) = component w.
Proof.
  unfold Main.beforeEach.
  destruct (Main.requiresAuth to); [|done].
  destruct (negb _); [|done]. apply login_component.
Qed.

Lemma settle_login_component p r w :
  promises w !! p = Some PendingLogin → component (settle p r w) = component w.
Proof. unfold settle. intros ->. by destruct r as [| | | |[]]. Qed.

(** C10: the component's [login()] and [logout()] leave its [authenticated]
    and [userInfo] fields as they are, and so does the settling of the
    promises these calls return; the fields change only when a promise of
    [init()] or of [loadUserInfo()] that carries a callback of [mounted]
    settles. *)
Theorem login_logout_leave_component (w : World) (r : Response) :
  component (App.login w) = component w ∧
  component (App.logout w) = component w ∧
  component (settle (fst (Keycloak.login w)) r (App.login w)) = component w ∧
  component (settle (fst (Keycloak.logout w)) r (App.logout w)) = component w ∧
  ∀ a, component (step w a) ≠ component w →
       ∃ p r', a = Settle p r' ∧
         ((∃ onLoad thens, promises w !! p = Some (PendingInit onLoad thens) ∧
                           thens ≠ []) ∨
          (∃ thens, promises w !! p = Some (PendingUserInfo thens) ∧
                    thens ≠ [])).
Proof.
  split_and!.
  - apply login_component.
  - done.
  - unfold App.login. rewrite settle_login_component by apply login_pending.
    apply login_component.
  - unfold settle, App.logout, Keycloak.logout, new_promise; cbn.
    by rewrite lookup_snoc.
  - intros a Hne. destruct a as [to from| | | |p r']; simpl in Hne.
    + by rewrite beforeEach_component in Hne.
    + by rewrite mounted_eq in Hne.
    + unfold App.login in Hne. by rewrite login_component in Hne.
    + done.
    + exists p, r'. split; [done|]. unfold settle in Hne.
      destruct (promises w !! p) as [[ol thens| | |thens| | | |]|]; try done.
      * left. exists ol, thens. split; [done|]. intros ->.
        by destruct r'.
      * by destruct r' as [| | | |[]].
      * right. exists thens. split; [done|]. intros ->.
        by destruct r'.
Qed.

(** ** Bootstrap: [mounted] and the promise of [init] *)

Lemma init_then_keycloak b w : keycloak (App.init_then b w) = keycloak w.
Proof.
  destruct b; [|done].
  destruct (decide (Session.state (keycloak w) = Authenticated)) as [Hs|Hs].
  - destruct (Session.accessToken (keycloak w)) as [token|] eqn:Ht.
    + by rewrite (init_then_true_token w token).
    + by rewrite init_then_true_refused by auto.
  - by rewrite init_then_true_refused by auto.
Qed.

Lemma init_then_authenticated b w :
  Vue.authenticated (component (App.init_then b w)) = b.
Proof.
  destruct b; [|done].
  destruct (decide (Session.state (keycloak w) = Authenticated)) as [Hs|Hs].
  - destruct (Session.accessToken (keycloak w)) as [token|] eqn:Ht.
    + by rewrite (init_then_true_token w token).
    + by rewrite init_then_true_refused by auto.
  - by rewrite init_then_true_refused by auto.
Qed.

(** Settling a pending [init] that carries the callback of [mounted]. *)
Lemma settle_init_resolved p onLoad w k :
  promises w !! p = Some (PendingInit onLoad [MountedThen]) →
  let b := bool_decide (Session.state k = Authenticated) in
  let w' := App.init_then b (resolve p (ResolvedInit b) (set_keycloak k w)) in
  promises w' !! p = Some (ResolvedInit b) ∧
  Vue.authenticated (component w') = b ∧
  (b = true ↔ Session.state (keycloak w') = Authenticated).
Proof.
  intros Hp b w'. split_and!.
  - unfold w'. destruct (init_then_promises b
      (resolve p (ResolvedInit b) (set_keycloak k w))) as [extra ->].
    apply lookup_app_l_Some. cbn. apply list_lookup_insert_eq.
    by eapply lookup_lt_Some.
  - apply init_then_authenticated.
  - unfold w'. rewrite init_then_keycloak. cbn. unfold b.
    by rewrite bool_decide_eq_true.
Qed.

(** C4: [init] returns a promise that is pending when [mounted] returns (the
    component's fields are still untouched); whatever else happens before the
    provider answers, when that promise resolves it resolves to a boolean that
    is true exactly when the session is [Authenticated], and the component's
    [authenticated] flag equals it; when the provider cannot be reached the
    promise is rejected with [InitError] and the component is left alone. *)
Theorem mounted_flag_follows_init (w : World) (acts : list Action) (r : Response) :
  let p := fst (Keycloak.init LoginRequired w) in
  let w1 := App.mounted w in
  let w2 := run acts w1 in
  let w3 := settle p r w2 in
  (∀ r', ¬ In (Settle p r') acts) →
  (promises w1 !! p = Some (PendingInit LoginRequired [MountedThen]) ∧
   component w1 = component w) ∧
  promises w2 !! p = Some (PendingInit LoginRequired [MountedThen]) ∧
  match r with
  | RTokens _ _ _ | RNoSession =>
      ∃ b, promises w3 !! p = Some (ResolvedInit b) ∧
           Vue.authenticated (component w3) = b ∧
           (b = true ↔ Session.state (keycloak w3) = Authenticated)
  | _ =>
      promises w3 !! p = Some (Rejected InitError) ∧
      component w3 = component w2
  end.
Proof.
  intros p w1 w2 w3 Hacts.
  assert (Hp1 : promises w1 !! p = Some (PendingInit LoginRequired [MountedThen])).
  { unfold w1. rewrite mounted_eq. cbn. apply lookup_snoc. }
  assert (Hp2 : promises w2 !! p = Some (PendingInit LoginRequired [MountedThen])).
  { by apply run_entry. }
  split; [split; [done|]|split; [done|]].
  - unfold w1. by rewrite mounted_eq.
  - assert (Hlt : p < length (promises w2)) by by eapply lookup_lt_Some.
    unfold w3, settle. rewrite Hp2.
    destruct r as [a rt e| | | |e]; simpl foldl;
      try (split; [by apply list_lookup_insert_eq | done]).
    + eexists. by apply (settle_init_resolved p LoginRequired w2).
    + eexists. by apply (settle_init_resolved p LoginRequired w2).
Qed.

Lemma mounted_flag_follows_init_witness :
  ∃ b, promises
         (settle 0 Sample.tokens
            (run [Navigate Sample.home Sample.START; ClickLogin]
               (App.mounted initial))) !! 0 = Some (ResolvedInit b) ∧
       Vue.authenticated
         (component
            (settle 0 Sample.tokens
               (run [Navigate Sample.home Sample.START; ClickLogin]
                  (App.mounted initial)))) = b ∧
       (b = true ↔
        Session.state
          (keycloak
             (settle 0 Sample.tokens
                (run [Navigate Sample.home Sample.START; ClickLogin]
                   (App.mounted initial)))) = Authenticated).
Proof.
  destruct (mounted_flag_follows_init initial
              [Navigate Sample.home Sample.START; ClickLogin] Sample.tokens)
    as (_ & _ & H).
  - intros r' [H|[H|[]]]; discriminate H.
  - exact H.
Defined.

(** ** Loading the user's claims *)

(** What the callback of [init] does once the promise [p] resolved to [b]. *)
Lemma init_then_userInfo p w k :
  p < length (promises w) →
  let b := bool_decide (Session.state k = Authenticated) in
  let w' := App.init_then b (resolve p (ResolvedInit b) (set_keycloak k w)) in
  let q := length (promises w) in
  promises w' !! p = Some (ResolvedInit b) ∧
  (b = true →
     Session.state (keycloak w') = Authenticated ∧
     calls w' = calls w ++ [CallLoadUserInfo] ∧
     ∀ token, Session.accessToken (keycloak w') = Some token →
       requests w' = requests w ++ [ReqUserInfo token] ∧
       promises w' !! q = Some (PendingUserInfo [LoadUserInfoThen]) ∧
       ∀ claims,
         Session.userInfo (keycloak (settle q (RClaims claims) w')) = claims ∧
         Vue.userInfo (component (settle q (RClaims claims) w')) = claims) ∧
  (b = false →
     calls w' = calls w ∧ requests w' = requests w ∧
     Vue.userInfo (component w') = Vue.userInfo (component w)).
Proof.
  intros Hlt b w' q.
  set (w0 := resolve p (ResolvedInit b) (set_keycloak k w)) in *.
  assert (Hlen : length (promises w0) = q).
  { unfold w0; cbn. by rewrite length_insert. }
  split_and!.
  - unfold w'. destruct (init_then_promises b w0) as [extra ->].
    apply lookup_app_l_Some. unfold w0; cbn. by apply list_lookup_insert_eq.
  - intros Hb.
    assert (Hs : Session.state (keycloak w0) = Authenticated).
    { unfold b in Hb. by apply bool_decide_eq_true in Hb. }
    unfold w'. rewrite Hb. split_and!.
    + by rewrite init_then_keycloak.
    + destruct (Session.accessToken (keycloak w0)) as [token|] eqn:Ht.
      * by rewrite (init_then_true_token w0 token).
      * by rewrite init_then_true_refused by auto.
    + intros token. rewrite init_then_keycloak. intros Ht.
      rewrite (init_then_true_token w0 token) by done.
      split_and!; [done| |].
      * cbn [promises]. rewrite <- Hlen. apply lookup_snoc.
      * intros claims. unfold settle. cbn [promises].
        rewrite <- Hlen, lookup_snoc. done.
  - intros Hb. unfold w'. by rewrite Hb.
Qed.

Lemma foldl_init_then_false_calls thens w :
  calls (foldl (run_init_then false) w thens) = calls w.
Proof. apply (foldl_frame calls). by intros w' []. Qed.

Lemma foldl_init_then_keycloak b thens w :
  keycloak (foldl (run_init_then b) w thens) = keycloak w.
Proof. apply (foldl_frame keycloak). intros w' []. apply init_then_keycloak. Qed.

(** Every action makes no call on the session object, or one call that is
    not [loadUserInfo()], or is the settling of a promise of [init] that
    leaves the session [Authenticated]. *)
Lemma step_calls w a :
  calls (step w a) = calls w ∨
  (∃ c, c ≠ CallLoadUserInfo ∧ calls (step w a) = calls w ++ [c]) ∨
  (∃ p r onLoad thens,
     a = Settle p r ∧
     promises w !! p = Some (PendingInit onLoad thens) ∧
     Session.state (keycloak (step w a)) = Authenticated).
Proof.
  destruct a as [to from| | | |p r]; simpl.
  - unfold Main.beforeEach.
    destruct (Main.requiresAuth to); [|by left].
    destruct (negb _); [|by left].
    right; left. exists CallLogin. by rewrite login_calls.
  - right; left. exists (CallInit LoginRequired). by rewrite mounted_eq.
  - right; left. exists CallLogin. unfold App.login. by rewrite login_calls.
  - right; left. by exists CallLogout.
  - unfold settle.
    destruct (promises w !! p) as [[ol thens| | |thens| | | |]|] eqn:Hp;
      try by left.
    + assert (Hk : ∀ k,
        let b := bool_decide (Session.state k = Authenticated) in
        let w' := foldl (run_init_then b)
                    (resolve p (ResolvedInit b) (set_keycloak k w)) thens in
        calls w' = calls w ∨ Session.state (keycloak w') = Authenticated).
      { intros k b w'. destruct b eqn:Hb.
        - right. unfold w'. rewrite foldl_init_then_keycloak. cbn.
          by apply bool_decide_eq_true in Hb.
        - left. unfold w'. by rewrite foldl_init_then_false_calls. }
      destruct r as [a rt e| | | |e]; try (by left).
      * destruct (Hk (Session.grant a rt e (keycloak w))) as [H|H];
          [by left|]. right; right. by exists p, (RTokens a rt e), ol, thens.
      * destruct (Hk (Session.abandon (keycloak w))) as [H|H];
          [by left|]. right; right. by exists p, RNoSession, ol, thens.
    + left. by destruct r as [| | | |[]].
    + left. destruct r; try done.
      by rewrite (foldl_frame calls) by by intros w' [].
Qed.

(** C5: [loadUserInfo()] asks the userinfo endpoint with the current access
    token and caches the claims into [userInfo]; the component calls it only
    in the callback of [init], and only when [init] resolved to true, which
    is when the session is [Authenticated]; when [init] does not resolve to
    true it is not called and the component's [userInfo] stays what it was,
    which for a fresh component is the empty mapping. *)
Theorem userInfo_loaded_only_when_authenticated (w : World) (r : Response) :
  let p := fst (Keycloak.init LoginRequired w) in
  let w1 := App.mounted w in
  let w2 := settle p r w1 in
  let q := length (promises w1) in
  (calls w1 = calls w ++ [CallInit LoginRequired] ∧
   Vue.userInfo (component w1) = Vue.userInfo (component w) ∧
   Vue.userInfo Vue.created = ∅) ∧
  (promises w2 !! p = Some (ResolvedInit true) →
     Session.state (keycloak w2) = Authenticated ∧
     calls w2 = calls w1 ++ [CallLoadUserInfo] ∧
     ∀ token, Session.accessToken (keycloak w2) = Some token →
       requests w2 = requests w1 ++ [ReqUserInfo token] ∧
       promises w2 !! q = Some (PendingUserInfo [LoadUserInfoThen]) ∧
       ∀ claims,
         Session.userInfo (keycloak (settle q (RClaims claims) w2)) = claims ∧
         Vue.userInfo (component (settle q (RClaims claims) w2)) = claims) ∧
  (promises w2 !! p ≠ Some (ResolvedInit true) →
     calls w2 = calls w1 ∧ requests w2 = requests w1 ∧
     Vue.userInfo (component w2) = Vue.userInfo (component w)) ∧
  (∀ w0 a,
     calls (step w0 a) = calls w0 ∨
     (∃ c, c ≠ CallLoadUserInfo ∧ calls (step w0 a) = calls w0 ++ [c]) ∨
     (∃ p0 r0 onLoad thens,
        a = Settle p0 r0 ∧
        promises w0 !! p0 = Some (PendingInit onLoad thens) ∧
        Session.state (keycloak (step w0 a)) = Authenticated)).
Proof.
  intros p w1 w2 q.
  assert (Hp1 : promises w1 !! p = Some (PendingInit LoginRequired [MountedThen])).
  { unfold w1. rewrite mounted_eq. cbn. apply lookup_snoc. }
  assert (Hlt : p < length (promises w1)) by by eapply lookup_lt_Some.
  assert (Hu1 : Vue.userInfo (component w1) = Vue.userInfo (component w)).
  { unfold w1. by rewrite mounted_eq. }
  split; [|split; [|split]].
  - split_and!; [|done..]. unfold w1. by rewrite mounted_eq.
  - unfold w2, settle. rewrite Hp1.
    destruct r as [a rt e| | | |e]; simpl foldl;
      try (intros H; cbn in H;
           rewrite list_lookup_insert_eq in H by done; discriminate H).
    + destruct (init_then_userInfo p w1
                  (Session.grant a rt e (keycloak w1)) Hlt) as (Hr & Ht & _).
      rewrite Hr. intros [= Hb]. by apply Ht.
    + destruct (init_then_userInfo p w1
                  (Session.abandon (keycloak w1)) Hlt) as (Hr & Ht & _).
      rewrite Hr. intros [= Hb]. by apply Ht.
  - unfold w2, settle. rewrite Hp1. rewrite <- Hu1.
    destruct r as [a rt e| | | |e]; simpl foldl; try done.
    + destruct (init_then_userInfo p w1
                  (Session.grant a rt e (keycloak w1)) Hlt) as (Hr & _ & Hf).
      rewrite Hr. intros Hne. apply Hf.
      destruct (bool_decide _); [done|done].
    + destruct (init_then_userInfo p w1
                  (Session.abandon (keycloak w1)) Hlt) as (Hr & _ & Hf).
      rewrite Hr. intros Hne. apply Hf.
      destruct (bool_decide _); [done|done].
  - apply step_calls.
Qed.

Lemma userInfo_loaded_only_when_authenticated_witness :
  Vue.userInfo
    (component
       (settle 1 (RClaims Sample.alice)
          (settle 0 Sample.tokens (App.mounted initial)))) = Sample.alice ∧
  requests (settle 0 Sample.tokens (App.mounted initial))
  = [ReqInit LoginRequired; ReqUserInfo "T1"] ∧
  Vue.userInfo (component (settle 0 RNoSession (App.mounted initial))) = ∅.
Proof.
  destruct (userInfo_loaded_only_when_authenticated initial Sample.tokens)
    as (_ & Hyes & _ & _).
  destruct (userInfo_loaded_only_when_authenticated initial RNoSession)
    as (_ & _ & Hno & _).
  destruct Hyes as (_ & _ & Htoken); [reflexivity|].
  destruct (Htoken "T1") as (Hreq & _ & Hclaims); [reflexivity|].
  destruct (Hclaims Sample.alice) as [_ Hc].
  destruct Hno as (_ & _ & Hu); [intros H; vm_compute in H; discriminate H|].
  split; [exact Hc|]. split; [exact Hreq | exact Hu].
Defined.

(** ** One login in flight *)

Section counting.
Context {A : Type} (P : A → Prop) `{!∀ x, Decision (P x)}.



End counting.


















(** ** One session object *)

Lemma begin_auth_config k : Session.config (Session.begin_auth k) = Session.config k.
Proof. unfold Session.begin_auth. by destruct (Session.state k). Qed.

Lemma grant_config a r e k : Session.config (Session.grant a r e k) = Session.config k.
Proof. unfold Session.grant. by destruct (Session.state k). Qed.

Lemma fail_config k : Session.config (Session.fail k) = Session.config k.
Proof. unfold Session.fail. by destruct (Session.state k). Qed.

Lemma abandon_config k : Session.config (Session.abandon k) = Session.config k.
Proof. unfold Session.abandon. by destruct (Session.state k). Qed.

Lemma login_config w :
  Session.config (keycloak (snd (Keycloak.login w))) = Session.config (keycloak w).
Proof.
  unfold Keycloak.login. rewrite in_flight_called.
  destruct (Keycloak.in_flight w); cbn; [done|]. apply begin_auth_config.
Qed.

Lemma settle_config p r w :
  Session.config (keycloak (settle p r w)) = Session.config (keycloak w).
Proof.
  unfold settle.
  destruct (promises w !! p) as [[ol thens| | |thens| | | |]|]; try done.
  - destruct r; rewrite ?foldl_init_then_keycloak; cbn;
      auto using grant_config, abandon_config, fail_config.
  - destruct r as [| | | |[]]; cbn; auto using grant_config, fail_config.
  - destruct r; try done.
    rewrite (foldl_frame keycloak); [done|]. by intros w' [].
Qed.

Lemma step_config w a :
  Session.config (keycloak (step w a)) = Session.config (keycloak w).
Proof.
  destruct a as [to from| | | |p r]; simpl.
  - unfold Main.beforeEach.
    destruct (Main.requiresAuth to); [|done].
    destruct (negb _); [|done]. apply login_config.
  - rewrite mounted_eq. apply begin_auth_config.
  - apply login_config.
  - done.
  - apply settle_config.
Qed.

Lemma run_config acts w :
  Session.config (keycloak (run acts w)) = Session.config (keycloak w).
Proof.
  unfold run. revert w. induction acts as [|a acts IH]; intros w; simpl; [done|].
  by rewrite IH, step_config.
Qed.

Lemma main_ts_bindings st :
  fst (fst (Loader.main_ts st)) = snd (fst (Loader.main_ts st)) ∧
  Loader.import_keycloak (snd (Loader.main_ts st))
  = (fst (fst (Loader.main_ts st)), snd (Loader.main_ts st)) ∧
  length (Loader.heap (snd (Loader.main_ts st))) ≤ S (length (Loader.heap st)).
Proof.
  unfold Loader.main_ts, Loader.App_vue, Loader.import_keycloak.
  destruct (Loader.evaluated st !! "@/path-to-keycloak.ts") as [a|] eqn:E; cbn.
  - rewrite E; cbn. rewrite E. split_and!; [done..|lia].
  - rewrite lookup_insert_eq; cbn. rewrite lookup_insert_eq.
    rewrite length_app; cbn. split_and!; [done..|lia].
Qed.

(** C7: keycloak.ts calls the constructor once, when the module is first
    imported; main.ts and App.vue import the same specifier and get the same
    object, however often it is imported again; the guard and the component
    therefore act on one session object, and no action of a run changes its
    configuration, which is [keycloakConfig]. *)
Theorem one_session_object :
  (fst (Loader.main_ts Loader.empty) = (0, 0) ∧
   Loader.heap (snd (Loader.main_ts Loader.empty))
   = [Session.Keycloak keycloakConfig] ∧
   Loader.heap (snd (Loader.main_ts Loader.empty)) !! 0 = Some (keycloak initial)) ∧
  (∀ st,
     fst (fst (Loader.main_ts st)) = snd (fst (Loader.main_ts st)) ∧
     Loader.import_keycloak (snd (Loader.main_ts st))
     = (fst (fst (Loader.main_ts st)), snd (Loader.main_ts st)) ∧
     length (Loader.heap (snd (Loader.main_ts st))) ≤ S (length (Loader.heap st))) ∧
  (∀ acts w,
     Session.config (keycloak (run acts w)) = Session.config (keycloak w)) ∧
  (∀ acts, Session.config (keycloak (run acts initial)) = keycloakConfig).
Proof.
  split_and!.
  - reflexivity.
  - reflexivity.
  - reflexivity.
  - apply main_ts_bindings.
  - intros acts w. apply run_config.
  - intros acts. by rewrite run_config.
Qed.

(** ** The guard, the session's state and the flag the guard reads *)

Lemma set_state_coherent s k : Session.coherent (Session.set_state s k).
Proof.
  unfold Session.coherent; cbn. by rewrite bool_decide_eq_true.
Qed.

Lemma step_coherent w a :
  Session.coherent (keycloak w) → Session.coherent (keycloak (step w a)).
Proof.
  intros H.
  assert (Hb : Session.coherent (Session.begin_auth (keycloak w))).
  { unfold Session.begin_auth.
    destruct (Session.state (keycloak w)); auto using set_state_coherent. }
  assert (Hg : ∀ a r e, Session.coherent (Session.grant a r e (keycloak w))).
  { intros. unfold Session.grant.
    destruct (Session.state (keycloak w)); auto using set_state_coherent. }
  assert (Hf : Session.coherent (Session.fail (keycloak w))).
  { unfold Session.fail.
    destruct (Session.state (keycloak w)); auto using set_state_coherent. }
  assert (Ha : Session.coherent (Session.abandon (keycloak w))).
  { unfold Session.abandon.
    destruct (Session.state (keycloak w)); auto using set_state_coherent. }
  destruct a as [to from| | | |p r]; simpl.
  - unfold Main.beforeEach.
    destruct (Main.requiresAuth to); [|done].
    destruct (negb _); [|done].
    unfold Keycloak.login. rewrite in_flight_called.
    by destruct (Keycloak.in_flight w).
  - by rewrite mounted_eq.
  - unfold App.login, Keycloak.login. rewrite in_flight_called.
    by destruct (Keycloak.in_flight w).
  - apply set_state_coherent.
  - unfold settle.
    destruct (promises w !! p) as [[ol thens| | |thens| | | |]|]; try done.
    + destruct r; rewrite ?foldl_init_then_keycloak; cbn; auto.
    + destruct r as [| | | |[]]; cbn; auto.
    + destruct r; try done.
      rewrite (foldl_frame keycloak); [done|]. by intros w' [].
Qed.

(** From the start on, [keycloak.authenticated] is truthy exactly when the
    session is [Authenticated]. *)
Lemma run_coherent acts :
  Session.coherent (keycloak (run acts initial)).
Proof.
  assert (H : ∀ w, Session.coherent (keycloak w) →
                   Session.coherent (keycloak (run acts w))).
  { unfold run. induction acts as [|a acts IH]; intros w Hw; simpl; [done|].
    by apply IH, step_coherent. }
  apply H. by split.
Qed.

(** C1: a navigation whose target has a matched record with a truthy
    [meta.requiresAuth] is not confirmed by the guard (no [next()]) while
    [keycloak.authenticated] is falsy; and at any point of any run from the
    start, while the session's state is not [Authenticated]. *)
Theorem guard_blocks_unauthenticated (to from : Route) (w : World) :
  (∃ record, In record (matched to) ∧
             truthy (meta_get record "requiresAuth") = true) →
  (truthy (Session.authenticated (keycloak w)) = false →
   completed (Main.beforeEach to from w) = completed w) ∧
  (∀ acts,
     Session.state (keycloak (run acts initial)) ≠ Authenticated →
     completed (Main.beforeEach to from (run acts initial))
     = completed (run acts initial)).
Proof.
  intros Hreq. apply requiresAuth_spec in Hreq.
  assert (H : ∀ w', truthy (Session.authenticated (keycloak w')) = false →
                    completed (Main.beforeEach to from w') = completed w').
  { intros w' Hauth. unfold Main.beforeEach. rewrite Hreq, Hauth. simpl.
    apply login_completed. }
  split; [apply H|].
  intros acts Hstate. apply H.
  destruct (truthy _) eqn:Hauth; [|done].
  by apply (run_coherent acts) in Hauth.
Qed.

Lemma guard_blocks_unauthenticated_witness :
  completed (Main.beforeEach Sample.home Sample.START initial) = completed initial ∧
  completed
    (Main.beforeEach Sample.home Sample.START
       (run [Mount; Settle 0 (RFail NetworkError)] initial)) = [].
Proof.
  destruct (guard_blocks_unauthenticated Sample.home Sample.START initial)
    as [Hnow Hrun].
  - exists {| path := "/"; meta := {[ "requiresAuth" := VBool true ]} |}.
    split; [left; reflexivity | reflexivity].
  - split; [apply Hnow; reflexivity|].
    apply (Hrun [Mount; Settle 0 (RFail NetworkError)]).
    intros H; vm_compute in H; discriminate H.
Defined.

(** ** The curl scripts *)

(** C6, as the scripts have it: each script makes one request to the
    protected backend, and that request carries
    [Authorization: Bearer <access_token>] with the token the provider just
    issued; the request of the second script carries
    [Accept: application/json] as well. *)
Theorem backend_requests_carry_bearer (provider : Scripts.Curl → string) :
  Scripts.to_backend (Scripts.part_000 provider)
  = [Scripts.part_000_backend (provider Scripts.part_000_token)] ∧
  Scripts.to_backend (Scripts.part_001 provider)
  = [Scripts.part_001_backend (provider Scripts.part_001_token)] ∧
  (∀ c, In c (Scripts.to_backend (Scripts.part_000 provider)) →
        Scripts.carries
          ("Authorization", ("Bearer " ++ provider Scripts.part_000_token)%string) c) ∧
  (∀ c, In c (Scripts.to_backend (Scripts.part_001 provider)) →
        Scripts.carries
          ("Authorization", ("Bearer " ++ provider Scripts.part_001_token)%string) c ∧
        Scripts.carries ("Accept", "application/json") c).
Proof.
  assert (H0 : Scripts.to_backend (Scripts.part_000 provider)
               = [Scripts.part_000_backend (provider Scripts.part_000_token)])
    by reflexivity.
  assert (H1 : Scripts.to_backend (Scripts.part_001 provider)
               = [Scripts.part_001_backend (provider Scripts.part_001_token)])
    by reflexivity.
  split_and!; [done..| |].
  - rewrite H0. intros c [<-|[]]. unfold Scripts.carries; cbn. by left.
  - rewrite H1. intros c [<-|[]]. unfold Scripts.carries; cbn.
    split; [right; by left | by left].
Qed.

(** C6, as the claim has it, fails: the request the first script makes to
    the backend carries the bearer token and no [Accept: application/json]. *)
Lemma backend_accept_counterexample :
  ∃ c, In c (Scripts.to_backend (Scripts.part_000 (λ _, "T1"))) ∧
       Scripts.target c = Scripts.backend ∧
       Scripts.carries ("Authorization", "Bearer T1") c ∧
       Scripts.wire_headers c = [("Authorization", "Bearer T1"); ("Accept", "*/*")] ∧
       ¬ Scripts.carries ("Accept", "application/json") c.
Proof.
  exists (Scripts.part_000_backend "T1").
  split_and!; [by left | done | by left | done |].
  unfold Scripts.carries; cbn. intros [H|[H|[]]]; discriminate H.
Qed.

(** * Further properties of the code *)

(** ** The guard, one pass and over a run *)

Lemma login_unhandled w : unhandled (snd (Keycloak.login w)) = unhandled w.
Proof. unfold Keycloak.login. by destruct (Keycloak.in_flight _). Qed.

(** Every pass through the guard does exactly one of two things: it
    calls [next()] once and nothing else, or it calls [keycloak.login()] once
    and not [next()]; it never does both or neither, never touches the
    component, raises no rejection, and does not look at [from]. *)
Lemma guard_next_xor_login (to from : Route) (w : World) :
  let w' := Main.beforeEach to from w in
  ((w' = next to w ∧
    calls w' = calls w ∧ completed w' = completed w ++ [to]) ∨
   (w' = snd (Keycloak.login w) ∧
    calls w' = calls w ++ [CallLogin] ∧ completed w' = completed w)) ∧
  component w' = component w ∧
  unhandled w' = unhandled w ∧
  (∀ from', Main.beforeEach to from' w = w').
Proof.
  intros w'. split_and!.
  - unfold w', Main.beforeEach.
    destruct (Main.requiresAuth to); [|by left].
    destruct (negb _); [|by left].
    right. by rewrite login_calls, login_completed.
  - apply beforeEach_component.
  - unfold w', Main.beforeEach.
    destruct (Main.requiresAuth to); [|done].
    destruct (negb _); [|done]. apply login_unhandled.
  - done.
Qed.

Lemma targets_cons_navigate to from acts :
  targets (Navigate to from :: acts) = to :: targets acts.
Proof. done. Qed.

Lemma targets_cons_other a acts :
  is_navigation a = false → targets (a :: acts) = targets acts.
Proof. by destruct a. Qed.

(** X2: over any run the confirmed navigations grow by a subsequence, in
    order, of the targets the run navigated to: nothing is confirmed that
    was not asked for, nothing is confirmed twice, and no earlier
    confirmation is taken back; when all the targets are public, every one
    of them is confirmed, whatever the session and the provider do in
    between. *)
Theorem confirmed_are_requested (acts : list Action) (w : World) :
  (∃ passed, passed `sublist_of` targets acts ∧
             completed (run acts w) = completed w ++ passed) ∧
  (Forall (λ to, Main.requiresAuth to = false) (targets acts) →
   completed (run acts w) = completed w ++ targets acts).
Proof.
  unfold run. split.
  - revert w. induction acts as [|a acts IH]; intros w; cbn [foldl].
    { exists []. by rewrite app_nil_r. }
    destruct (IH (step w a)) as (passed & Hsub & ->).
    destruct a as [to from| | | |p r].
    + rewrite targets_cons_navigate. simpl.
      destruct (guard_next_xor_login to from w) as [[(_ & _ & ->)|(_ & _ & ->)] _].
      * exists (to :: passed). split; [by apply sublist_skip|].
        by rewrite <- app_assoc.
      * exists passed. split; [by apply sublist_cons|done].
    + exists passed. by rewrite step_completed.
    + exists passed. by rewrite step_completed.
    + exists passed. by rewrite step_completed.
    + exists passed. by rewrite step_completed.
  - revert w. induction acts as [|a acts IH]; intros w Hpub; cbn [foldl].
    { by rewrite app_nil_r. }
    destruct a as [to from| | | |p r];
      try (rewrite targets_cons_other in * by done; rewrite IH by done;
           by rewrite step_completed).
    rewrite targets_cons_navigate in *. apply Forall_cons in Hpub as [Hto Hpub].
    rewrite IH by done. simpl. unfold Main.beforeEach. rewrite Hto. simpl.
    by rewrite <- app_assoc.
Qed.

Lemma confirmed_are_requested_witness :
  completed
    (run [Navigate Sample.about Sample.START; ClickLogin; ClickLogout;
          Navigate Sample.about Sample.about] initial)
  = [Sample.about; Sample.about].
Proof.
  destruct (confirmed_are_requested
              [Navigate Sample.about Sample.START; ClickLogin; ClickLogout;
               Navigate Sample.about Sample.about] initial) as [_ H].
  apply H. repeat constructor.
Defined.

(** ** The page: what is shown and what can be pressed *)

Lemma render_eq c :
  Template.render c =
  if Vue.authenticated c
  then [Template.P ("Authenticated as "
                    ++ Template.toDisplayString (Template.username c))%string;
        Template.Button Template.OnLogout "Logout"]
  else [Template.Button Template.OnLogin "Login"].
Proof. unfold Template.render. by destruct (Vue.authenticated c). Qed.

Lemma shows_eq h c :
  Template.shows h c =
  match h with
  | Template.OnLogin => negb (Vue.authenticated c)
  | Template.OnLogout => Vue.authenticated c
  end.
Proof.
  unfold Template.shows. rewrite render_eq.
  by destruct h, (Vue.authenticated c).
Qed.

Lemma press_component h w : component (Template.press h w) = component w.
Proof.
  unfold Template.press. destruct (Template.shows h (component w)); [|done].
  destruct h; [apply login_component | done].
Qed.

Lemma press_calls h w :
  calls (Template.press h w) =
  calls w ++
  (if Template.shows h (component w)
   then [match h with
         | Template.OnLogin => CallLogin
         | Template.OnLogout => CallLogout
         end]
   else []).
Proof.
  unfold Template.press. destruct (Template.shows h (component w)).
  - destruct h; [apply login_calls | done].
  - by rewrite app_nil_r.
Qed.

(** X3: the page always has exactly one of the two buttons, Logout together
    with the paragraph when the component's flag is set and Login otherwise;
    and pressing a button never changes the page: the button stays, and
    pressed [n] times it calls its method on the session object [n] times. *)
Theorem press_leaves_page (h : Template.Handler) (n : nat) (w : World) :
  let w' := Nat.iter n (Template.press h) w in
  let call := match h with
              | Template.OnLogin => CallLogin
              | Template.OnLogout => CallLogout
              end in
  (Template.render (component w) =
   if Vue.authenticated (component w)
   then [Template.P ("Authenticated as "
           ++ Template.toDisplayString
                (Template.username (component w)))%string;
         Template.Button Template.OnLogout "Logout"]
   else [Template.Button Template.OnLogin "Login"]) ∧
  component w' = component w ∧
  Template.render (component w') = Template.render (component w) ∧
  calls w' =
  calls w ++ (if Template.shows h (component w) then repeat call n else []).
Proof.
  intros w' call. split; [apply render_eq|].
  assert (H : component w' = component w ∧
              calls w' = calls w ++ (if Template.shows h (component w)
                                     then repeat call n else [])).
  { unfold w'. induction n as [|n [IHc IHl]]; simpl.
    - split; [done|]. destruct (Template.shows _ _); by rewrite app_nil_r.
    - rewrite press_component, press_calls, IHc, IHl. split; [done|].
      destruct (Template.shows h (component w)); [|by rewrite !app_nil_r].
      rewrite <- app_assoc. f_equal. symmetry. apply repeat_cons. }
  destruct H as [Hc Hl]. by rewrite Hc.
Qed.

Lemma handle_component w e :
  is_answer e = false → component (handle w e) = component w.
Proof.
  destruct e as [h|to from| |p r]; simpl; try done; intros _.
  - apply press_component.
  - apply beforeEach_component.
  - by rewrite mounted_eq.
Qed.

Lemma handle_no_logout w e :
  is_answer e = false →
  Vue.authenticated (component w) = false →
  filter (λ c, c = CallLogout) (calls (handle w e))
  = filter (λ c, c = CallLogout) (calls w).
Proof.
  assert (Hsnoc : ∀ c, c ≠ CallLogout →
    filter (λ c, c = CallLogout) (calls w ++ [c])
    = filter (λ c, c = CallLogout) (calls w)).
  { intros c Hc. rewrite filter_app, filter_cons_False by done.
    by rewrite filter_nil, app_nil_r. }
  destruct e as [h|to from| |p r]; simpl; try done; intros _ Hflag.
  - rewrite press_calls, shows_eq, Hflag.
    destruct h; simpl; [by apply Hsnoc | by rewrite app_nil_r].
  - destruct (guard_next_xor_login to from w) as [[(_ & -> & _)|(_ & -> & _)] _];
      [done | by apply Hsnoc].
  - rewrite mounted_eq. by apply Hsnoc.
Qed.

(** X4: until the provider answers, nothing the user does changes the
    component: whatever buttons are pressed, wherever the user navigates and
    however often the component is mounted, its fields stay as they were; on
    a component whose flag is not set the page keeps showing the Login button
    alone, and [keycloak.logout()] is not called. *)
Theorem page_waits_for_provider (evs : list Event) (w : World) :
  forallb (λ e, negb (is_answer e)) evs = true →
  component (session evs w) = component w ∧
  (Vue.authenticated (component w) = false →
   Template.render (component (session evs w))
   = [Template.Button Template.OnLogin "Login"] ∧
   filter (λ c, c = CallLogout) (calls (session evs w))
   = filter (λ c, c = CallLogout) (calls w)).
Proof.
  unfold session. revert w.
  induction evs as [|e evs IH]; intros w Hevs; simpl in Hevs |- *.
  - split; [done|]. intros Hflag. by rewrite render_eq, Hflag.
  - apply andb_prop in Hevs as [He Hevs]. apply negb_true_iff in He.
    destruct (IH (handle w e) Hevs) as [Hc Hpage].
    rewrite Hc, handle_component by done. split; [done|].
    intros Hflag. rewrite handle_component in Hpage by done.
    destruct (Hpage Hflag) as [_ Hl].
    split; [by rewrite render_eq, Hflag|].
    by rewrite Hl, handle_no_logout.
Qed.

Lemma page_waits_for_provider_witness :
  Template.render
    (component
       (session [Mounts; Press Template.OnLogout; Press Template.OnLogin;
                 Goes Sample.home Sample.START; Mounts] initial))
  = [Template.Button Template.OnLogin "Login"] ∧
  filter (λ c, c = CallLogout)
    (calls
       (session [Mounts; Press Template.OnLogout; Press Template.OnLogin;
                 Goes Sample.home Sample.START; Mounts] initial)) = [].
Proof.
  destruct (page_waits_for_provider
              [Mounts; Press Template.OnLogout; Press Template.OnLogin;
               Goes Sample.home Sample.START; Mounts] initial) as [_ H];
    [reflexivity|].
  apply H. reflexivity.
Defined.

(** ** The page through the bootstrap *)

Lemma begin_auth_state k :
  Session.state k ≠ Authenticated →
  Session.state (Session.begin_auth k) = Authenticating.
Proof. unfold Session.begin_auth. by destruct (Session.state k) eqn:E; cbn. Qed.

Lemma lookup_snoc2 {A} (l : list A) (x y : A) :
  (l ++ [x; y]) !! S (length l) = Some y.
Proof.
  rewrite lookup_app_r by lia.
  by replace (S (length l) - length l) with 1 by lia.
Qed.

(** The world after [mounted()] once the provider granted a token set. *)
Lemma bootstrap_tokens w a rt e :
  Session.state (keycloak w) ≠ Authenticated →
  settle (length (promises w)) (RTokens a rt e) (App.mounted w) =
  {| keycloak :=
       Session.set_state Authenticated
         (Session.set_tokens (Some a) (Some rt) (Some e)
            (Session.begin_auth (keycloak w)));
     component :=
       {| Vue.authenticated := true; Vue.userInfo := Vue.userInfo (component w) |};
     promises := promises w ++ [ResolvedInit true; PendingUserInfo [LoadUserInfoThen]];
     calls := calls w ++ [CallInit LoginRequired; CallLoadUserInfo];
     requests := requests w ++ [ReqInit LoginRequired; ReqUserInfo a];
     completed := completed w;
     unhandled := unhandled w |}.
Proof.
  intros Hs. apply begin_auth_state in Hs.
  rewrite mounted_eq. unfold settle. cbn [promises keycloak].
  rewrite lookup_snoc. unfold Session.grant. rewrite Hs.
  cbn [foldl run_init_then]. cbn [Session.state Session.set_state].
  rewrite bool_decide_eq_true_2 by done.
  rewrite (init_then_true_token _ a) by done.
  cbn. rewrite insert_snoc. by rewrite <- !app_assoc.
Qed.

(** X5: the page through a successful bootstrap.  Mounting leaves the page
    as it is; when the provider grants a token set the page shows the
    paragraph and the Logout button, with the name the component already had
    (none on a fresh component), and the userinfo request goes out with the
    token just granted; when the claims arrive the paragraph shows their
    [username], or an empty name when the claims have none. *)
Theorem page_after_bootstrap (w : World) (a rt : string) (e : Z)
    (claims : gmap string value) :
  Session.state (keycloak w) ≠ Authenticated →
  let p := length (promises w) in
  let w1 := session [Mounts] w in
  let w2 := session [Answers p (RTokens a rt e)] w1 in
  let w3 := session [Answers (S p) (RClaims claims)] w2 in
  Template.render (component w1) = Template.render (component w) ∧
  Template.render (component w2)
  = [Template.P ("Authenticated as "
       ++ Template.toDisplayString (Template.username (component w)))%string;
     Template.Button Template.OnLogout "Logout"] ∧
  requests w2 = requests w ++ [ReqInit LoginRequired; ReqUserInfo a] ∧
  Template.render (component w3)
  = [Template.P ("Authenticated as "
       ++ Template.toDisplayString
            (default VUndefined (claims !! "username")))%string;
     Template.Button Template.OnLogout "Logout"] ∧
  (claims !! "username" = None →
   Template.render (component w3)
   = [Template.P "Authenticated as ";
      Template.Button Template.OnLogout "Logout"]) ∧
  (Vue.userInfo (component w) = ∅ →
   Template.render (component w2)
   = [Template.P "Authenticated as ";
      Template.Button Template.OnLogout "Logout"]).
Proof.
  intros Hs p w1 w2 w3.
  assert (H1 : w1 = App.mounted w) by done.
  assert (H2 : w2 = settle p (RTokens a rt e) (App.mounted w)) by done.
  unfold p in H2. rewrite bootstrap_tokens in H2 by done.
  assert (H3 : component w3 =
               {| Vue.authenticated := true; Vue.userInfo := claims |}).
  { unfold w3, session. cbn [foldl handle]. rewrite H2. unfold settle.
    cbn [promises]. unfold p. rewrite lookup_snoc2. done. }
  split_and!.
  - rewrite H1. by rewrite mounted_eq.
  - by rewrite H2.
  - by rewrite H2.
  - by rewrite H3.
  - intros Hnone. rewrite H3, render_eq. cbn.
    unfold Template.username; cbn. by rewrite Hnone.
  - intros Hempty. rewrite H2, render_eq. cbn.
    unfold Template.username; cbn. by rewrite Hempty.
Qed.

Lemma page_after_bootstrap_witness :
  Template.render
    (component
       (session [Mounts; Answers 0 Sample.tokens; Answers 1 (RClaims Sample.alice)]
          initial))
  = [Template.P "Authenticated as alice";
     Template.Button Template.OnLogout "Logout"].
Proof.
  destruct (page_after_bootstrap initial "T1" "R1" 60 Sample.alice)
    as (_ & _ & _ & H & _); [discriminate|].
  exact H.
Defined.

(** X6: the failures of the bootstrap.  [mounted] registers no rejection
    handler, so when [init] is rejected the component is left as it was and
    the error reaches the shell; when the userinfo request fails after a
    successful [init], the flag stays set, the name stays what it was, the
    page keeps the paragraph and the Logout button, and the error reaches
    the shell. *)
Theorem bootstrap_failures_reach_shell (w : World) (err : ErrorKind)
    (a rt : string) (e : Z) :
  let p := length (promises w) in
  (let w2 := session [Mounts; Answers p (RFail err)] w in
   component w2 = component w ∧
   unhandled w2 = unhandled w ++ [InitError] ∧
   calls w2 = calls w ++ [CallInit LoginRequired]) ∧
  (Session.state (keycloak w) ≠ Authenticated →
   let w3 := session [Mounts; Answers p (RTokens a rt e);
                      Answers (S p) (RFail err)] w in
   component w3
   = {| Vue.authenticated := true; Vue.userInfo := Vue.userInfo (component w) |} ∧
   Template.render (component w3)
   = [Template.P ("Authenticated as "
        ++ Template.toDisplayString (Template.username (component w)))%string;
      Template.Button Template.OnLogout "Logout"] ∧
   unhandled w3 = unhandled w ++ [NetworkError]).
Proof.
  intros p. split.
  - unfold session. cbn [foldl handle]. rewrite mounted_eq. unfold settle.
    cbn [promises]. unfold p. rewrite lookup_snoc. done.
  - intros Hs w3.
    assert (H3 : w3 = settle (S p) (RFail err)
                        (settle p (RTokens a rt e) (App.mounted w))) by done.
    unfold p in H3. rewrite bootstrap_tokens in H3 by done.
    unfold settle in H3. cbn [promises] in H3.
    rewrite lookup_snoc2 in H3. by rewrite H3.
Qed.

Lemma bootstrap_failures_reach_shell_witness :
  unhandled
    (session [Mounts; Answers 0 Sample.tokens; Answers 1 (RFail NetworkError)]
       initial) = [NetworkError] ∧
  Template.render
    (component
       (session [Mounts; Answers 0 Sample.tokens; Answers 1 (RFail NetworkError)]
          initial))
  = [Template.P "Authenticated as ";
     Template.Button Template.OnLogout "Logout"].
Proof.
  destruct (bootstrap_failures_reach_shell initial NetworkError "T1" "R1" 60)
    as [_ H].
  destruct H as (_ & Hpage & Hshell); [discriminate|].
  split; [exact Hshell | exact Hpage].
Defined.

(** ** The guard follows the session, the page follows the component *)

(** X7: after a successful bootstrap a navigation to a protected route is
    confirmed at once, with no call on the session object; after the Logout
    button is pressed the same navigation calls [login()] and is not
    confirmed, although the page, which follows the component's own flag,
    still shows the paragraph and the Logout button. *)
Theorem guard_follows_session_not_page (w : World) (a rt : string) (e : Z)
    (to from : Route) :
  Session.state (keycloak w) ≠ Authenticated →
  Main.requiresAuth to = true →
  let p := length (promises w) in
  let w2 := session [Mounts; Answers p (RTokens a rt e)] w in
  let w3 := session [Press Template.OnLogout] w2 in
  (completed (session [Goes to from] w2) = completed w ++ [to] ∧
   calls (session [Goes to from] w2) = calls w2) ∧
  (completed (session [Goes to from] w3) = completed w ∧
   calls (session [Goes to from] w3) = calls w2 ++ [CallLogout; CallLogin] ∧
   Template.render (component (session [Goes to from] w3))
   = Template.render (component w2) ∧
   Template.shows Template.OnLogout (component (session [Goes to from] w3))
   = true).
Proof.
  intros Hs Hreq p w2 w3.
  assert (H2 : w2 = settle p (RTokens a rt e) (App.mounted w)) by done.
  unfold p in H2. rewrite bootstrap_tokens in H2 by done.
  assert (H3 : w3 = App.logout w2).
  { unfold w3, session. cbn [foldl handle]. unfold Template.press.
    rewrite shows_eq. by rewrite H2. }
  split.
  - unfold session. cbn [foldl handle]. unfold Main.beforeEach.
    rewrite Hreq. by rewrite H2.
  - destruct (guard_next_xor_login to from w3) as (_ & Hc & _ & _).
    assert (Hauth : truthy (Session.authenticated (keycloak w3)) = false)
      by by rewrite H3.
    unfold session. cbn [foldl handle].
    assert (Hg : Main.beforeEach to from w3 = snd (Keycloak.login w3)).
    { unfold Main.beforeEach. by rewrite Hreq, Hauth. }
    split_and!.
    + rewrite Hg, login_completed, H3. by rewrite H2.
    + rewrite Hg, login_calls, H3. cbn. by rewrite <- app_assoc.
    + rewrite Hc, H3. done.
    + rewrite shows_eq, Hc, H3. by rewrite H2.
Qed.

Lemma guard_follows_session_not_page_witness :
  completed
    (session [Mounts; Answers 0 Sample.tokens; Goes Sample.home Sample.START]
       initial) = [Sample.home] ∧
  completed
    (session [Mounts; Answers 0 Sample.tokens; Press Template.OnLogout;
              Goes Sample.home Sample.START] initial) = [].
Proof.
  destruct (guard_follows_session_not_page initial "T1" "R1" 60
              Sample.home Sample.START) as [[H2 _] [H3 _]];
    [discriminate | reflexivity |].
  split; [exact H2 | exact H3].
Defined.

(** ** The curl scripts: where the secrets go *)


